(** * Garbage-domain regex generator ([main.py]): model and properties

    The program reads, per project, a list of domain names, counts how
    often each postfix (the name minus its leftmost label) occurs among
    names that are not themselves known to be real, and emits one regular
    expression per project.

    Python [str] values are modelled as [string] (the UTF-8 bytes of the
    text: the only character the program inspects is ['.'], an ASCII byte
    that never occurs inside a multi-byte sequence), Python [int] as [Z],
    the insertion-ordered [dict] as an association list that keeps the
    order in which keys were first inserted, and exceptions as an explicit
    result type. *)

From Stdlib Require Import String Ascii List ZArith Lia Bool Permutation.
Import ListNotations.

Local Open Scope string_scope.
Local Open Scope list_scope.
Local Open Scope Z_scope.

(** ** Exceptions *)

Inductive exn : Type :=
| InvalidName               (* class InvalidName(Exception) *)
| KeyError (key : string).  (* raised by [d[k]] on a missing key *)

Inductive result (A : Type) : Type :=
| Ok (a : A)
| Raise (e : exn).

Arguments Ok {A} a.
Arguments Raise {A} e.

Definition bind {A B : Type} (m : result A) (k : A -> result B) : result B :=
  match m with
  | Ok a => k a
  | Raise e => Raise e
  end.

Notation "x <- m ;; k" := (bind m (fun x => k))
  (at level 61, m at next level, right associativity).
Notation "' pat <- m ;; k" := (bind m (fun x => match x with pat => k end))
  (at level 61, pat pattern, m at next level, right associativity).

(** ** The [str] methods the program calls *)

Module Str.

(** [s.find(sub)]: lowest index at which [sub] occurs in [s], or [-1]. *)
Fixpoint find (s sub : string) : Z :=
  if String.prefix sub s then 0
  else match s with
       | EmptyString => -1
       | String _ s' =>
           let r := find s' sub in
           if r =? -1 then -1 else r + 1
       end.

Fixpoint drop (n : nat) (s : string) : string :=
  match n, s with
  | O, _ => s
  | S _, EmptyString => EmptyString
  | S n', String _ s' => drop n' s'
  end.

(** [s[i:]]: a negative start counts from the end; the start is clamped
    to the bounds of [s]. *)
Definition slice_from (s : string) (i : Z) : string :=
  let len := Z.of_nat (String.length s) in
  let start := if i <? 0 then Z.max 0 (i + len) else Z.min i len in
  drop (Z.to_nat start) s.

(** [s.replace(old, new)]: every non-overlapping occurrence of [old],
    left to right.  [skip] counts the characters of an occurrence
    already replaced that are still to be passed over. *)
Fixpoint replace_from (old new s : string) (skip : nat) : string :=
  match s with
  | EmptyString => EmptyString
  | String c s' =>
      match skip with
      | S k => replace_from old new s' k
      | O =>
          if String.prefix old s
          then new ++ replace_from old new s' (String.length old - 1)
          else String c (replace_from old new s' 0)
      end
  end.

(** With an empty [old], Python inserts [new] before every character
    and at the end. *)
Fixpoint intersperse (new s : string) : string :=
  match s with
  | EmptyString => new
  | String c s' => new ++ String c (intersperse new s')
  end.

Definition replace (s old new : string) : string :=
  match old with
  | EmptyString => intersperse new s
  | _ => replace_from old new s 0
  end.

(** [sep.join(parts)] *)
Definition join (sep : string) (parts : list string) : string :=
  String.concat sep parts.

End Str.

(** ** Constants of [main.py] *)

Definition DB_PATH : string := "domains.db".
Definition TOO_MANY : Z := 50.
Definition DOMAIN_NAME_CHARS : string := "[a-zA-Z0-9\-]".

(** ** [get_postfix] *)

Definition get_postfix (domain : string) : result string :=
  let pos := Str.find domain "." in
  if pos =? -1 then Raise InvalidName
  else Ok (Str.slice_from domain (pos + 1)).

(** A name contains a dot: stated on the characters of the name,
    independently of [Str.find]. *)
Definition has_dot (n : string) : Prop :=
  In "."%char (list_ascii_of_string n).

(** ** Insertion-ordered dictionaries ([Dict[str, int]]) *)

Module Dict.

Definition t : Type := list (string * Z).

Definition empty : t := [].

(** [k in d] *)
Fixpoint contains (k : string) (d : t) : bool :=
  match d with
  | [] => false
  | (k', _) :: d' => if String.eqb k' k then true else contains k d'
  end.

Fixpoint get (k : string) (d : t) : option Z :=
  match d with
  | [] => None
  | (k', v) :: d' => if String.eqb k' k then Some v else get k d'
  end.

(** [d[k]] as an expression: [KeyError] on a missing key. *)
Definition getitem (k : string) (d : t) : result Z :=
  match get k d with
  | Some v => Ok v
  | None => Raise (KeyError k)
  end.

(** [d[k] = v]: an existing key keeps its position, a new key goes
    last. *)
Fixpoint set (k : string) (v : Z) (d : t) : t :=
  match d with
  | [] => [(k, v)]
  | (k', v') :: d' =>
      if String.eqb k' k then (k, v) :: d' else (k', v') :: set k v d'
  end.

(** [d.keys()], in insertion order. *)
Definition keys (d : t) : list string := map fst d.

Definition values (d : t) : list Z := map snd d.

(** Sum of all the counts held by the dictionary. *)
Definition total (d : t) : Z := fold_right Z.add 0 (values d).

End Dict.

(** [for x in xs: body], with the loop's variables threaded as [s]. *)
Fixpoint for_each {A S : Type} (xs : list A) (body : A -> S -> result S)
    (s : S) : result S :=
  match xs with
  | [] => Ok s
  | x :: xs' => s' <- body x s ;; for_each xs' body s'
  end.

(** ** [_generate_regex] *)

(** [f"{DOMAIN_NAME_CHARS}+\.{postfix}"] *)
Definition garbage_fragment (postfix : string) : string :=
  DOMAIN_NAME_CHARS ++ "+\." ++ postfix.

(** [f"(?!^{name}$)"] *)
Definition lookahead_fragment (name : string) : string :=
  "(?!^" ++ name ++ "$)".

(** Body of the first loop.  The value of [postfix.replace(".", "\.")]
    is computed and dropped, as in the source. *)
Definition garbage_body (postfix_count : Dict.t) (postfix : string)
    (garbage : list string) : result (list string) :=
  c <- Dict.getitem postfix postfix_count ;;
  if c >? TOO_MANY then
    let _ := Str.replace postfix "." "\." in
    Ok (garbage ++ [garbage_fragment postfix])
  else Ok garbage.

(** Body of the second loop; again the value of [name.replace] is
    dropped. *)
Definition exceptions_body (name : string) (result : string) : string :=
  let _ := Str.replace name "." "\." in
  result ++ lookahead_fragment name.

Definition garbage_of (postfix_count : Dict.t) : result (list string) :=
  for_each (Dict.keys postfix_count) (garbage_body postfix_count) [].

Definition _generate_regex (postfix_count : Dict.t)
    (exceptions : list string) : result string :=
  garbage <- garbage_of postfix_count ;;
  let result := fold_left (fun r name => exceptions_body name r) exceptions "" in
  Ok (result ++ Str.join "|" garbage)%string.

(** ** The two passes of [generate_regex] *)

(** Pass 1: [postfix_count[postfix] = 0]. *)
Definition seed_body (name : string) (postfix_count : Dict.t)
    : result Dict.t :=
  postfix <- get_postfix name ;;
  Ok (Dict.set postfix 0 postfix_count).

(** Pass 2: the loop variables are [postfix_count] and [exceptions]. *)
Definition count_body (name : string) (st : Dict.t * list string)
    : result (Dict.t * list string) :=
  let '(postfix_count, exceptions) := st in
  if Dict.contains name postfix_count then
    Ok (postfix_count, exceptions ++ [name])
  else
    postfix <- get_postfix name ;;
    c <- Dict.getitem postfix postfix_count ;;
    Ok (Dict.set postfix (c + 1) postfix_count, exceptions).

(** The two loops of [generate_regex] (lines 66-78), from the list of
    names to the pair handed to [_generate_regex]; both locals start
    empty at every call. *)
Definition classify (names : list string) : result (Dict.t * list string) :=
  postfix_count <- for_each names seed_body Dict.empty ;;
  for_each names count_body (postfix_count, []).

(** The body of [generate_regex] once the names are loaded
    (lines 66-80). *)
Definition regex_of_names (names : list string) : result string :=
  ' (postfix_count, exceptions) <- classify names ;;
  _generate_regex postfix_count exceptions.

(** ** Storage: the two tables and the session *)

Module Domain.
Record t : Type := mk { project_id : Z; name : string }.
End Domain.

Module Rule.
Record t : Type := mk { project_id : Z; regexp : string }.
End Rule.

(** A session: the rows of [domains] and the objects added to the
    session and not yet flushed ([session.add_all]). *)
Record Session : Type := mkSession {
  domains : list Domain.t;
  pending : list Rule.t
}.

(** Computations that read or write the session and may raise. *)
Definition M (A : Type) : Type := Session -> result A * Session.

Definition retM {A : Type} (a : A) : M A := fun s => (Ok a, s).

Definition bindM {A B : Type} (m : M A) (k : A -> M B) : M B :=
  fun s =>
    match m s with
    | (Ok a, s') => k a s'
    | (Raise e, s') => (Raise e, s')
    end.

Definition liftM {A : Type} (r : result A) : M A := fun s => (r, s).

Notation "x <~ m ;; k" := (bindM m (fun x => k))
  (at level 61, m at next level, right associativity).

Fixpoint for_eachM {A S : Type} (xs : list A) (body : A -> S -> M S)
    (s : S) : M S :=
  match xs with
  | [] => retM s
  | x :: xs' => s' <~ body x s ;; for_eachM xs' body s'
  end.

(** First occurrences, in order. *)
Fixpoint distinct (l : list Z) : list Z :=
  match l with
  | [] => []
  | x :: l' => x :: filter (fun y => negb (y =? x)) (distinct l')
  end.

(** [session.query(Domain.name).where(Domain.project_id == project_id)] *)
Definition names_of (project_id : Z) (rows : list Domain.t) : list string :=
  map Domain.name
      (filter (fun d => Domain.project_id d =? project_id) rows).

Definition query_names (project_id : Z) : M (list string) :=
  fun s => (Ok (names_of project_id (domains s)), s).

(** [session.query(Domain.project_id).distinct()] *)
Definition project_ids (rows : list Domain.t) : list Z :=
  distinct (map Domain.project_id rows).

Definition query_project_ids : M (list Z) :=
  fun s => (Ok (project_ids (domains s)), s).

Definition add_all (rules : list Rule.t) : M unit :=
  fun s => (Ok tt, mkSession (domains s) (pending s ++ rules)).

(** ** [generate_regex] and the module-level driver *)

Definition generate_regex (project_id : Z) : M string :=
  names <~ query_names project_id ;;
  liftM (regex_of_names names).

(** Body of the driver's loop (lines 101-102). *)
Definition main_body (project_id : Z) (rules : list Rule.t)
    : M (list Rule.t) :=
  re <~ generate_regex project_id ;;
  retM (rules ++ [Rule.mk project_id re]).

(** The [with Session(engine)] block (lines 98-103); the source leaves
    [session.commit()] commented out, so the rules stay pending. *)
Definition main : M unit :=
  ids <~ query_project_ids ;;
  rules <~ for_eachM ids main_body [] ;;
  add_all rules.

(** The run of the program on a store: a fresh session over its rows. *)
Definition run (rows : list Domain.t) : result unit * Session :=
  main (mkSession rows []).

(** ** Vocabulary of the statements *)

(** [p] is the postfix of the name [n]. *)
Definition is_postfix_of (p n : string) : bool :=
  match get_postfix n with
  | Ok q => String.eqb q p
  | Raise _ => false
  end.

(** [p] is the postfix of some name of the list. *)
Definition postfix_in (names : list string) (p : string) : bool :=
  existsb (is_postfix_of p) names.

(** The entries of the list that pass 2 counts towards [p]: their
    postfix is [p] and they are not themselves the postfix of an entry. *)
Definition counted (names : list string) (p : string) : list string :=
  filter (fun n => negb (postfix_in names n) && is_postfix_of p n) names.

(** The garbage test of [_generate_regex] on one key. *)
Definition too_many (postfix_count : Dict.t) (p : string) : bool :=
  match Dict.get p postfix_count with
  | Some c => c >? TOO_MANY
  | None => false
  end.

(** Executable form of [has_dot], for concrete lists. *)
Definition has_dotb (n : string) : bool :=
  match get_postfix n with
  | Ok _ => true
  | Raise _ => false
  end.

(** The rule of a project: its id and the regex computed from its
    names. *)
Definition rule_for (rows : list Domain.t) (project_id : Z) (r : Rule.t)
    : Prop :=
  Rule.project_id r = project_id /\
  regex_of_names (names_of project_id rows) = Ok (Rule.regexp r).

(** The rules of the final session that carry a given project id. *)
Definition rules_of (project_id : Z) (rules : list Rule.t) : list Rule.t :=
  filter (fun r => Rule.project_id r =? project_id) rules.

(** A project id occurs in the [domains] table. *)
Definition has_project (rows : list Domain.t) (project_id : Z) : Prop :=
  exists d, In d rows /\ Domain.project_id d = project_id.

(** The reading under which every store, whatever its names, ends with
    one pending rule per project id. *)
Definition one_rule_for_every_store : Prop :=
  forall rows,
  exists rules,
    snd (run rows) = mkSession rows rules /\
    forall project_id,
      has_project rows project_id ->
      length (rules_of project_id rules) = 1%nat.

(** An entry of the count map that holds 0. *)
Definition zero_count (kv : string * Z) : Prop := snd kv = 0.


(** The negative lookaheads of the exceptions, in list order. *)
Definition lookaheads (exceptions : list string) : string :=
  String.concat "" (map lookahead_fragment exceptions).

(** Two runs of [generate_regex] in a row on one session. *)
Definition generate_regex_twice (project_id : Z) : M (string * string) :=
  r1 <~ generate_regex project_id ;;
  r2 <~ generate_regex project_id ;;
  retM (r1, r2).

(** First occurrences, in order: the order in which a [dict] holds
    keys that were assigned one after the other. *)
Fixpoint first_occurrences (l : list string) : list string :=
  match l with
  | [] => []
  | x :: l' =>
      x :: filter (fun y => negb (String.eqb x y)) (first_occurrences l')
  end.

(** The postfixes of the names that have one, in list order. *)
Definition postfixes (names : list string) : list string :=
  flat_map (fun n => match get_postfix n with
                     | Ok p => [p]
                     | Raise _ => []
                     end) names.

(** More than [TOO_MANY] entries of the list are counted towards [p]. *)
Definition garbage_test (names : list string) (p : string) : bool :=
  Z.of_nat (length (counted names p)) >? TOO_MANY.

(** The entries of the list that are not the postfix of an entry. *)
Definition not_exceptions (names : list string) : list string :=
  filter (fun n => negb (postfix_in names n)) names.

(** ** Test data *)

Fixpoint label (n : nat) : string :=
  match n with
  | O => "x"
  | S n' => String "x" (label n')
  end.

(** [k] distinct names [x.p], [xx.p], ... with postfix [p]. *)
Definition subdomains (k : nat) (p : string) : list string :=
  map (fun i => (label i ++ "." ++ p)%string) (seq 0 k).


(** Project 1 is well formed, project 2 holds a name without a dot. *)
Definition mixed_store : list Domain.t :=
  [Domain.mk 1 "b.a.com"; Domain.mk 2 "localhost"].

(** Two well-formed projects. *)
Definition small_store : list Domain.t :=
  [Domain.mk 1 "a.com"; Domain.mk 2 "c.org"; Domain.mk 1 "b.a.com"].

Example get_postfix_ex1 : get_postfix "b.a.com" = Ok "a.com".
Proof. reflexivity. Qed.

Example replace_ex1 : Str.replace "x.a.com" "." "\." = "x\.a\.com".
Proof. reflexivity. Qed.

Example replace_ex2 : Str.replace "aaa" "aa" "b" = "ba".
Proof. reflexivity. Qed.

(** * Properties *)

(** ** Strings *)

Lemma find_dot_nil : Str.find "" "." = -1.
Proof. reflexivity. Qed.

Lemma find_dot_cons (c : ascii) (s : string) :
  Str.find (String c s) "." =
  if Ascii.eqb c "." then 0
  else if Str.find s "." =? -1 then -1 else Str.find s "." + 1.
Proof.
  cbn [Str.find String.prefix].
  destruct (ascii_dec "." c) as [<- | Hne].
  - destruct s; reflexivity.
  - destruct (Ascii.eqb_spec c "."); [congruence | reflexivity].
Qed.

Lemma find_dot_lower (s : string) : -1 <= Str.find s ".".
Proof.
  induction s as [| c s IH].
  - rewrite find_dot_nil. lia.
  - rewrite find_dot_cons.
    destruct (Ascii.eqb c "."); [lia |].
    destruct (Z.eqb_spec (Str.find s ".") (-1)); lia.
Qed.

Lemma find_dot_upper (s : string) :
  Str.find s "." < Z.of_nat (String.length s).
Proof.
  induction s as [| c s IH].
  - rewrite find_dot_nil. simpl. lia.
  - rewrite find_dot_cons. cbn [String.length].
    destruct (Ascii.eqb c "."); [lia |].
    destruct (Z.eqb_spec (Str.find s ".") (-1)); lia.
Qed.

Lemma slice_from_cons (c : ascii) (s : string) (i : Z) :
  0 <= i -> Str.slice_from (String c s) (i + 1) = Str.slice_from s i.
Proof.
  intros Hi. unfold Str.slice_from. cbn [String.length].
  destruct (Z.ltb_spec (i + 1) 0); [lia |].
  destruct (Z.ltb_spec i 0); [lia |].
  replace (Z.to_nat (Z.min (i + 1) (Z.of_nat (S (String.length s)))))
    with (S (Z.to_nat (Z.min i (Z.of_nat (String.length s))))) by lia.
  reflexivity.
Qed.

Lemma get_postfix_nil : get_postfix "" = Raise InvalidName.
Proof. reflexivity. Qed.

(** [get_postfix] walks to the first dot and returns what follows. *)
Lemma get_postfix_cons (c : ascii) (s : string) :
  get_postfix (String c s) =
  if Ascii.eqb c "." then Ok s else get_postfix s.
Proof.
  unfold get_postfix. rewrite find_dot_cons.
  destruct (Ascii.eqb c ".").
  - cbn. unfold Str.slice_from. cbn [String.length].
    replace (Z.to_nat _) with 1%nat by (cbn [Z.ltb Z.compare]; lia).
    reflexivity.
  - pose proof (find_dot_lower s) as Hlo.
    destruct (Z.eqb_spec (Str.find s ".") (-1)) as [E | E].
    + reflexivity.
    + destruct (Z.eqb_spec (Str.find s "." + 1) (-1)); [lia |].
      f_equal. apply slice_from_cons. lia.
Qed.

Lemma has_dot_nil : ~ has_dot "".
Proof. intros []. Qed.

Lemma has_dot_cons (c : ascii) (s : string) :
  has_dot (String c s) <-> c = "."%char \/ has_dot s.
Proof.
  unfold has_dot. cbn [list_ascii_of_string In]. intuition congruence.
Qed.

Lemma get_postfix_no_dot (n : string) :
  ~ has_dot n -> get_postfix n = Raise InvalidName.
Proof.
  induction n as [| c n IH]; intros H.
  - reflexivity.
  - rewrite get_postfix_cons. rewrite has_dot_cons in H.
    destruct (Ascii.eqb_spec c "."); [tauto | apply IH; tauto].
Qed.

Lemma get_postfix_split (n : string) :
  has_dot n ->
  exists pre post,
    n = (pre ++ "." ++ post)%string /\ ~ has_dot pre /\
    get_postfix n = Ok post.
Proof.
  induction n as [| c n IH]; intros H.
  - destruct (has_dot_nil H).
  - rewrite get_postfix_cons.
    destruct (Ascii.eqb_spec c ".") as [-> | Hc].
    + exists "", n. repeat split. apply has_dot_nil.
    + rewrite has_dot_cons in H. destruct H as [H | H]; [congruence |].
      destruct (IH H) as (pre & post & -> & Hpre & Hget).
      exists (String c pre), post. repeat split; [| exact Hget].
      rewrite has_dot_cons. tauto.
Qed.

Lemma get_postfix_outcome (n : string) :
  (has_dot n /\ exists p, get_postfix n = Ok p) \/
  (~ has_dot n /\ get_postfix n = Raise InvalidName).
Proof.
  induction n as [| c n IH].
  - right. split; [apply has_dot_nil | reflexivity].
  - rewrite get_postfix_cons, has_dot_cons.
    destruct (Ascii.eqb_spec c ".") as [-> | Hc].
    + left. split; [now left | now exists n].
    + destruct IH as [[H1 H2] | [H1 H2]]; [left | right]; split; tauto.
Qed.

Lemma get_postfix_ok_has_dot (n p : string) :
  get_postfix n = Ok p -> has_dot n.
Proof.
  intros H. destruct (get_postfix_outcome n) as [[Hd _] | [_ Hr]];
    [exact Hd | congruence].
Qed.

(** A postfix is strictly shorter than its name. *)
Lemma get_postfix_shorter (n p : string) :
  get_postfix n = Ok p -> (String.length p < String.length n)%nat.
Proof.
  induction n as [| c n IH]; intros H.
  - discriminate.
  - rewrite get_postfix_cons in H. cbn [String.length].
    destruct (Ascii.eqb c ".").
    + injection H as ->. lia.
    + specialize (IH H). lia.
Qed.

Lemma get_postfix_neq (n p : string) : get_postfix n = Ok p -> n <> p.
Proof.
  intros H ->. apply get_postfix_shorter in H. lia.
Qed.

Lemma get_postfix_app (pre post : string) :
  ~ has_dot pre -> get_postfix (pre ++ "." ++ post)%string = Ok post.
Proof.
  induction pre as [| c pre IH]; intros H.
  - cbn [String.append]. now rewrite get_postfix_cons.
  - cbn [String.append]. rewrite get_postfix_cons.
    rewrite has_dot_cons in H.
    destruct (Ascii.eqb_spec c "."); [tauto | apply IH; tauto].
Qed.

(** C4: [get_postfix] raises [InvalidName] exactly on the names without
    a dot, and on a name with a dot it returns what follows the first
    dot: for every way of writing the name as [pre ++ "." ++ post] with
    no dot in [pre], the result is [post], and such a decomposition
    exists as soon as the name has a dot. *)
Theorem get_postfix_spec (n : string) :
  (get_postfix n = Raise InvalidName <-> ~ has_dot n) /\
  (forall pre post,
      n = (pre ++ "." ++ post)%string -> ~ has_dot pre ->
      get_postfix n = Ok post) /\
  (has_dot n ->
   exists pre post,
     n = (pre ++ "." ++ post)%string /\ ~ has_dot pre /\
     get_postfix n = Ok post).
Proof.
  split; [| split].
  - split.
    + intros H Hd. destruct (get_postfix_split n Hd) as (? & ? & _ & _ & E).
      congruence.
    + apply get_postfix_no_dot.
  - intros pre post -> Hpre. now apply get_postfix_app.
  - apply get_postfix_split.
Qed.

Lemma get_postfix_spec_witness :
  get_postfix "localhost" = Raise InvalidName /\
  get_postfix "b.a.com" = Ok "a.com" /\
  exists pre post,
    "b.a.com" = (pre ++ "." ++ post)%string /\ ~ has_dot pre /\
    get_postfix "b.a.com" = Ok post.
Proof.
  split; [| split].
  - apply (proj1 (get_postfix_spec "localhost")).
    unfold has_dot. cbn. intuition discriminate.
  - apply (proj1 (proj2 (get_postfix_spec "b.a.com")) "b" "a.com").
    + reflexivity.
    + unfold has_dot. cbn. intuition discriminate.
  - apply (proj2 (proj2 (get_postfix_spec "b.a.com"))).
    unfold has_dot. cbn. tauto.
Defined.

(** ** Dictionaries *)

Lemma contains_get (k : string) (d : Dict.t) :
  Dict.contains k d = true <-> exists v, Dict.get k d = Some v.
Proof.
  induction d as [| [k' v'] d IH]; cbn.
  - split; [discriminate | intros [? ?]; discriminate].
  - destruct (String.eqb k' k); [| exact IH].
    split; [now exists v' | reflexivity].
Qed.

Lemma contains_false_get (k : string) (d : Dict.t) :
  Dict.contains k d = false <-> Dict.get k d = None.
Proof.
  induction d as [| [k' v'] d IH]; cbn.
  - tauto.
  - destruct (String.eqb k' k); [| exact IH].
    split; discriminate.
Qed.

Lemma contains_keys (k : string) (d : Dict.t) :
  Dict.contains k d = true <-> In k (Dict.keys d).
Proof.
  induction d as [| [k' v'] d IH]; cbn.
  - split; [discriminate | tauto].
  - destruct (String.eqb_spec k' k) as [-> | Hne].
    + split; [now left | reflexivity].
    + rewrite IH. split; [now right | intros [? | ?]; [congruence | assumption]].
Qed.

Lemma get_set_same (k : string) (v : Z) (d : Dict.t) :
  Dict.get k (Dict.set k v d) = Some v.
Proof.
  induction d as [| [k' v'] d IH]; cbn.
  - now rewrite String.eqb_refl.
  - destruct (String.eqb_spec k' k) as [-> | Hne]; cbn.
    + now rewrite String.eqb_refl.
    + destruct (String.eqb_spec k' k); [congruence | exact IH].
Qed.

Lemma get_set_other (k k' : string) (v : Z) (d : Dict.t) :
  k <> k' -> Dict.get k' (Dict.set k v d) = Dict.get k' d.
Proof.
  intros Hne. induction d as [| [k0 v0] d IH]; cbn.
  - destruct (String.eqb_spec k k'); [congruence | reflexivity].
  - destruct (String.eqb_spec k0 k) as [-> | Hk]; cbn.
    + destruct (String.eqb_spec k k'); [congruence | reflexivity].
    + destruct (String.eqb k0 k'); [reflexivity | exact IH].
Qed.

Lemma contains_set (k k' : string) (v : Z) (d : Dict.t) :
  Dict.contains k' (Dict.set k v d) = String.eqb k k' || Dict.contains k' d.
Proof.
  induction d as [| [k0 v0] d IH]; cbn.
  - now destruct (String.eqb k k').
  - destruct (String.eqb_spec k0 k) as [-> | Hk]; cbn.
    + now destruct (String.eqb k k').
    + rewrite IH. destruct (String.eqb_spec k0 k') as [-> | Hk'].
      * now rewrite orb_true_r.
      * reflexivity.
Qed.

(** Assigning to a key that is present changes no membership test. *)
Lemma contains_set_present (k k' : string) (v : Z) (d : Dict.t) :
  Dict.contains k d = true ->
  Dict.contains k' (Dict.set k v d) = Dict.contains k' d.
Proof.
  intros Hk. rewrite contains_set.
  destruct (String.eqb_spec k k') as [<- | _]; [now rewrite Hk | reflexivity].
Qed.

Lemma keys_set_present (k : string) (v : Z) (d : Dict.t) :
  Dict.contains k d = true -> Dict.keys (Dict.set k v d) = Dict.keys d.
Proof.
  induction d as [| [k0 v0] d IH]; cbn; [discriminate |].
  destruct (String.eqb_spec k0 k) as [-> | Hk]; cbn.
  - reflexivity.
  - intros H. f_equal. now apply IH.
Qed.

Lemma keys_set_absent (k : string) (v : Z) (d : Dict.t) :
  Dict.contains k d = false ->
  Dict.keys (Dict.set k v d) = Dict.keys d ++ [k].
Proof.
  induction d as [| [k0 v0] d IH]; cbn; [reflexivity |].
  destruct (String.eqb_spec k0 k) as [-> | Hk]; cbn.
  - discriminate.
  - intros H. f_equal. now apply IH.
Qed.

Lemma total_cons (k : string) (v : Z) (d : Dict.t) :
  Dict.total ((k, v) :: d) = v + Dict.total d.
Proof. reflexivity. Qed.

(** Replacing the count [c] of a present key by [v] moves the total by
    [v - c]. *)
Lemma total_set_present (k : string) (c v : Z) (d : Dict.t) :
  Dict.get k d = Some c -> Dict.total (Dict.set k v d) = Dict.total d - c + v.
Proof.
  induction d as [| [k0 v0] d IH]; cbn [Dict.get Dict.set]; [discriminate |].
  destruct (String.eqb k0 k).
  - intros [= ->]. rewrite !total_cons. lia.
  - intros H. rewrite !total_cons, (IH H). lia.
Qed.

Lemma total_set_absent (k : string) (v : Z) (d : Dict.t) :
  Dict.get k d = None -> Dict.total (Dict.set k v d) = Dict.total d + v.
Proof.
  induction d as [| [k0 v0] d IH]; cbn [Dict.get Dict.set].
  - intros _. rewrite total_cons. cbn. lia.
  - destruct (String.eqb k0 k); [discriminate |].
    intros H. rewrite !total_cons, (IH H). lia.
Qed.

(** Keys stay pairwise distinct under assignment. *)
Lemma keys_set_NoDup (k : string) (v : Z) (d : Dict.t) :
  NoDup (Dict.keys d) -> NoDup (Dict.keys (Dict.set k v d)).
Proof.
  intros H. destruct (Dict.contains k d) eqn:E.
  - now rewrite keys_set_present.
  - rewrite keys_set_absent by exact E.
    apply NoDup_app; [exact H | constructor; [intros [] | constructor] |].
    intros x Hx [<- | []].
    apply contains_keys in Hx. congruence.
Qed.

(** ** The assembler *)

Lemma string_app_assoc (a b c : string) :
  ((a ++ b) ++ c)%string = (a ++ b ++ c)%string.
Proof. induction a as [| x a IH]; cbn; [reflexivity | now rewrite IH]. Qed.

Lemma string_app_nil_r (a : string) : (a ++ "")%string = a.
Proof. induction a as [| x a IH]; cbn; [reflexivity | now rewrite IH]. Qed.

Lemma concat_empty_cons (x : string) (l : list string) :
  String.concat "" (x :: l) = (x ++ String.concat "" l)%string.
Proof.
  destruct l as [| y l]; cbn [String.concat].
  - now rewrite string_app_nil_r.
  - reflexivity.
Qed.

Lemma exceptions_loop (exceptions : list string) (acc : string) :
  fold_left (fun r name => exceptions_body name r) exceptions acc =
  (acc ++ lookaheads exceptions)%string.
Proof.
  revert acc. induction exceptions as [| name rest IH]; intros acc.
  - cbn. now rewrite string_app_nil_r.
  - cbn [fold_left]. rewrite IH. unfold exceptions_body, lookaheads.
    cbn [map]. rewrite concat_empty_cons. apply string_app_assoc.
Qed.

Lemma garbage_loop (postfix_count : Dict.t) (ks : list string)
    (acc : list string) :
  (forall k, In k ks -> In k (Dict.keys postfix_count)) ->
  for_each ks (garbage_body postfix_count) acc =
  Ok (acc ++ map garbage_fragment (filter (too_many postfix_count) ks)).
Proof.
  revert acc. induction ks as [| k ks IH]; intros acc Hks.
  - cbn. now rewrite app_nil_r.
  - assert (Hk : exists c, Dict.get k postfix_count = Some c).
    { apply contains_get, contains_keys, Hks. now left. }
    destruct Hk as [c Hc].
    cbn [for_each filter]. unfold garbage_body at 1, Dict.getitem, too_many.
    rewrite Hc. cbn [bind].
    destruct (c >? TOO_MANY); cbn [bind].
    + rewrite IH by (intros; apply Hks; now right).
      cbn [map]. now rewrite <- app_assoc.
    + apply IH. intros; apply Hks; now right.
Qed.

(** The first loop never raises: it only looks up keys of the
    dictionary it iterates over. *)
Lemma garbage_of_eq (postfix_count : Dict.t) :
  garbage_of postfix_count =
  Ok (map garbage_fragment
        (filter (too_many postfix_count) (Dict.keys postfix_count))).
Proof.
  unfold garbage_of. rewrite garbage_loop by tauto. reflexivity.
Qed.

Lemma _generate_regex_eq (postfix_count : Dict.t) (exceptions : list string) :
  _generate_regex postfix_count exceptions =
  Ok (lookaheads exceptions ++
      Str.join "|"
        (map garbage_fragment
           (filter (too_many postfix_count) (Dict.keys postfix_count))))%string.
Proof.
  unfold _generate_regex. rewrite garbage_of_eq. cbn [bind].
  now rewrite exceptions_loop.
Qed.

Lemma garbage_fragment_inj (p q : string) :
  garbage_fragment p = garbage_fragment q -> p = q.
Proof.
  unfold garbage_fragment, DOMAIN_NAME_CHARS. cbn. intros H.
  now injection H.
Qed.

Lemma too_many_iff (postfix_count : Dict.t) (p : string) :
  too_many postfix_count p = true <->
  exists c, Dict.get p postfix_count = Some c /\ c > TOO_MANY.
Proof.
  unfold too_many. destruct (Dict.get p postfix_count) as [c |].
  - split.
    + intros H. exists c. split; [reflexivity | lia].
    + intros (c' & [= <-] & H). lia.
  - split; [discriminate | intros (? & ? & _); discriminate].
Qed.

Lemma in_garbage_iff (postfix_count : Dict.t) (p : string) :
  In (garbage_fragment p)
     (map garbage_fragment
        (filter (too_many postfix_count) (Dict.keys postfix_count))) <->
  exists c, Dict.get p postfix_count = Some c /\ c > TOO_MANY.
Proof.
  rewrite <- too_many_iff, in_map_iff. split.
  - intros (q & Hq & Hin). apply garbage_fragment_inj in Hq. subst q.
    now apply filter_In in Hin.
  - intros H. exists p. split; [reflexivity |].
    apply filter_In. split; [| exact H].
    apply contains_keys, contains_get.
    apply too_many_iff in H. destruct H as (c & Hc & _). now exists c.
Qed.

(** C5: the assembler never raises; its result is the lookaheads of the
    exceptions followed by the fragments of the garbage list joined by
    ["|"]; a postfix has its fragment in the garbage list if and only if
    its count is strictly greater than [TOO_MANY]; a count of exactly 50
    keeps the postfix out. *)
Theorem garbage_iff_count_exceeds (postfix_count : Dict.t)
    (exceptions : list string) :
  exists garbage,
    garbage_of postfix_count = Ok garbage /\
    _generate_regex postfix_count exceptions =
      Ok (lookaheads exceptions ++ Str.join "|" garbage)%string /\
    (forall p,
        In (garbage_fragment p) garbage <->
        exists c, Dict.get p postfix_count = Some c /\ c > TOO_MANY) /\
    (forall p,
        Dict.get p postfix_count = Some 50 ->
        ~ In (garbage_fragment p) garbage).
Proof.
  eexists. split; [apply garbage_of_eq |].
  split; [apply _generate_regex_eq |]. split.
  - apply in_garbage_iff.
  - intros p H50 Hin. apply in_garbage_iff in Hin.
    destruct Hin as (c & Hc & Hgt). unfold TOO_MANY in Hgt.
    rewrite H50 in Hc. injection Hc as <-. lia.
Qed.

Lemma garbage_iff_count_exceeds_witness :
  exists garbage,
    garbage_of [("a.com", 51); ("b.com", 50)] = Ok garbage /\
    In (garbage_fragment "a.com") garbage /\
    ~ In (garbage_fragment "b.com") garbage.
Proof.
  destruct (garbage_iff_count_exceeds [("a.com", 51); ("b.com", 50)] [])
    as (garbage & Hg & _ & Hiff & H50).
  exists garbage. split; [exact Hg | split].
  - apply Hiff. exists 51. split; [reflexivity | unfold TOO_MANY; lia].
  - apply H50. reflexivity.
Defined.

(** ** Pass 1: seeding *)

Lemma set_zero_counts (k : string) (d : Dict.t) :
  Forall zero_count d -> Forall zero_count (Dict.set k 0 d).
Proof.
  induction 1 as [| [k0 v0] d H0 Hd IH]; cbn.
  - repeat constructor.
  - destruct (String.eqb k0 k); constructor; trivial. reflexivity.
Qed.

Lemma zero_counts_get (k : string) (v : Z) (d : Dict.t) :
  Forall zero_count d -> Dict.get k d = Some v -> v = 0.
Proof.
  induction 1 as [| [k0 v0] d H0 Hd IH]; cbn; [discriminate |].
  destruct (String.eqb k0 k); [| exact IH].
  intros [= <-]. exact H0.
Qed.

Lemma zero_counts_total (d : Dict.t) : Forall zero_count d -> Dict.total d = 0.
Proof.
  induction 1 as [| [k0 v0] d H0 Hd IH]; [reflexivity |].
  rewrite total_cons, IH. unfold zero_count in H0. cbn in H0. lia.
Qed.

Lemma is_postfix_of_ok (n p k : string) :
  get_postfix n = Ok p -> is_postfix_of k n = String.eqb p k.
Proof. unfold is_postfix_of. now intros ->. Qed.

Lemma postfix_in_intro (names : list string) (n p : string) :
  In n names -> get_postfix n = Ok p -> postfix_in names p = true.
Proof.
  intros Hin Hp. apply existsb_exists. exists n. split; [exact Hin |].
  rewrite (is_postfix_of_ok _ _ _ Hp). apply String.eqb_refl.
Qed.

Lemma postfix_in_elim (names : list string) (p : string) :
  postfix_in names p = true ->
  exists n, In n names /\ get_postfix n = Ok p.
Proof.
  intros H. apply existsb_exists in H. destruct H as (n & Hin & Hp).
  exists n. split; [exact Hin |]. unfold is_postfix_of in Hp.
  destruct (get_postfix n) as [q |]; [| discriminate].
  apply String.eqb_eq in Hp. now subst.
Qed.

(** Pass 1 on names that all have a dot: it returns, the keys are the
    old keys and the postfixes of the names, and it writes only zeros. *)
Lemma seed_loop (names : list string) (d0 : Dict.t) :
  (forall n, In n names -> has_dot n) ->
  exists d,
    for_each names seed_body d0 = Ok d /\
    (forall k, Dict.contains k d = Dict.contains k d0 || postfix_in names k) /\
    (Forall zero_count d0 -> Forall zero_count d) /\
    (NoDup (Dict.keys d0) -> NoDup (Dict.keys d)).
Proof.
  revert d0. induction names as [| n names IH]; intros d0 Hdots.
  - exists d0. cbn. repeat split; trivial. intros k. now rewrite orb_false_r.
  - destruct (get_postfix_split n (Hdots n (or_introl eq_refl)))
      as (_ & p & _ & _ & Hp).
    destruct (IH (Dict.set p 0 d0)) as (d & Hrun & Hkeys & Hzero & Hnd).
    { intros m Hm. apply Hdots. now right. }
    exists d. cbn [for_each]. unfold seed_body at 1. rewrite Hp. cbn [bind].
    split; [exact Hrun | split; [| split]].
    + intros k. rewrite Hkeys, contains_set. unfold postfix_in.
      cbn [existsb]. rewrite (is_postfix_of_ok _ _ _ Hp).
      destruct (String.eqb p k), (Dict.contains k d0); reflexivity.
    + intros H. apply Hzero. now apply set_zero_counts.
    + intros H. apply Hnd. now apply keys_set_NoDup.
Qed.

(** Pass 1 stops with [InvalidName] at the first name without a dot. *)
Lemma seed_loop_raises (names : list string) (d0 : Dict.t) :
  (exists n, In n names /\ ~ has_dot n) ->
  for_each names seed_body d0 = Raise InvalidName.
Proof.
  revert d0. induction names as [| n names IH]; intros d0 (m & Hin & Hm).
  - destruct Hin.
  - cbn [for_each]. unfold seed_body at 1.
    destruct (get_postfix_outcome n) as [(_ & p & Hp) | (Hn & Hr)].
    + rewrite Hp. cbn [bind]. apply IH. exists m. split; [| exact Hm].
      destruct Hin as [-> | Hin]; [| exact Hin].
      apply get_postfix_ok_has_dot in Hp. tauto.
    + now rewrite Hr.
Qed.

(** ** Pass 2: counting *)

(** Pass 2 from a dictionary whose keys are given by [isk], on names
    each of which is a key or has its postfix among the keys. *)
Lemma count_loop (isk : string -> bool) (names : list string)
    (pc0 : Dict.t) (exc0 : list string) :
  (forall n, Dict.contains n pc0 = isk n) ->
  (forall n, In n names ->
     isk n = true \/ exists p, get_postfix n = Ok p /\ isk p = true) ->
  exists pc,
    for_each names count_body (pc0, exc0) = Ok (pc, exc0 ++ filter isk names) /\
    Dict.keys pc = Dict.keys pc0 /\
    (forall k,
        Dict.get k pc =
        option_map
          (fun c => c + Z.of_nat (length
             (filter (fun n => negb (isk n) && is_postfix_of k n) names)))
          (Dict.get k pc0)) /\
    Dict.total pc =
      Dict.total pc0 +
      Z.of_nat (length (filter (fun n => negb (isk n)) names)).
Proof.
  revert pc0 exc0.
  induction names as [| n names IH]; intros pc0 exc0 Hisk Hnames.
  - exists pc0. cbn. rewrite app_nil_r. repeat split; [| lia].
    intros k. destruct (Dict.get k pc0); cbn; [f_equal; lia | reflexivity].
  - cbn [for_each filter]. unfold count_body at 1. rewrite Hisk.
    destruct (isk n) eqn:En; cbn [negb andb bind].
    + destruct (IH pc0 (exc0 ++ [n]) Hisk) as (pc & Hrun & Hk & Hget & Htot).
      { intros m Hm. apply Hnames. now right. }
      exists pc. rewrite Hrun, <- app_assoc. cbn. repeat split; assumption.
    + destruct (Hnames n (or_introl eq_refl)) as [E | (p & Hp & Ekey)];
        [congruence |].
      rewrite Hp. cbn [bind].
      assert (Hc : exists c, Dict.get p pc0 = Some c).
      { apply contains_get. now rewrite Hisk. }
      destruct Hc as [c Hc]. unfold Dict.getitem. rewrite Hc. cbn [bind].
      assert (Hin : Dict.contains p pc0 = true) by now rewrite Hisk.
      destruct (IH (Dict.set p (c + 1) pc0) exc0)
        as (pc & Hrun & Hk & Hget & Htot).
      { intros m. now rewrite contains_set_present. }
      { intros m Hm. apply Hnames. now right. }
      exists pc. split; [exact Hrun | split; [| split]].
      * now rewrite Hk, keys_set_present.
      * intros k. rewrite Hget, (is_postfix_of_ok _ _ _ Hp).
        destruct (String.eqb_spec p k) as [<- | Hne].
        -- rewrite get_set_same, Hc. cbn [option_map length]. f_equal. lia.
        -- now rewrite get_set_other.
      * rewrite Htot, (total_set_present _ _ _ _ Hc). cbn [length]. lia.
Qed.

(** ** The classifier *)

(** On names that all have a dot the classifier returns; the keys of the
    count map are the postfixes of the names; the exceptions are the
    names that are keys, in list order and with their multiplicity; the
    count of a key is the number of entries counted towards it. *)
Lemma classify_spec (names : list string) :
  (forall n, In n names -> has_dot n) ->
  exists pc,
    classify names = Ok (pc, filter (postfix_in names) names) /\
    (forall k, Dict.contains k pc = postfix_in names k) /\
    (forall k,
        Dict.get k pc =
        if postfix_in names k
        then Some (Z.of_nat (length (counted names k)))
        else None) /\
    Dict.total pc =
      Z.of_nat (length (filter (fun n => negb (postfix_in names n)) names)) /\
    NoDup (Dict.keys pc).
Proof.
  intros Hdots.
  destruct (seed_loop names Dict.empty Hdots) as (pc0 & Hseed & Hk0 & Hz & Hnd).
  specialize (Hz (Forall_nil _)). specialize (Hnd (NoDup_nil _)).
  cbn [Dict.contains Dict.empty orb] in Hk0.
  destruct (count_loop (postfix_in names) names pc0 [] Hk0)
    as (pc & Hrun & Hk & Hget & Htot).
  { intros n Hn. right.
    destruct (get_postfix_split n (Hdots n Hn)) as (_ & p & _ & _ & Hp).
    exists p. split; [exact Hp | now apply postfix_in_intro with n]. }
  exists pc. unfold classify. rewrite Hseed. cbn [bind].
  split; [exact Hrun | split; [| split; [| split]]].
  - intros k. rewrite <- Hk0.
    destruct (Dict.contains k pc) eqn:E.
    + apply contains_keys in E. rewrite Hk in E.
      apply contains_keys in E. now rewrite E.
    + destruct (Dict.contains k pc0) eqn:E0; [| reflexivity].
      apply contains_keys in E0. rewrite <- Hk in E0.
      apply contains_keys in E0. congruence.
  - intros k. rewrite Hget. rewrite <- Hk0.
    destruct (Dict.contains k pc0) eqn:E0.
    + apply contains_get in E0. destruct E0 as [v Hv]. rewrite Hv.
      rewrite (zero_counts_get _ _ _ Hz Hv). reflexivity.
    + apply contains_false_get in E0. now rewrite E0.
  - rewrite Htot, (zero_counts_total _ Hz). lia.
  - now rewrite Hk.
Qed.

(** The classifier either returns (every name has a dot) or raises
    [InvalidName] (some name has none); it never raises [KeyError]. *)
Lemma classify_outcome (names : list string) :
  ((forall n, In n names -> has_dot n) /\ exists r, classify names = Ok r) \/
  ((exists n, In n names /\ ~ has_dot n) /\
   classify names = Raise InvalidName).
Proof.
  assert (D : (forall n, In n names -> has_dot n) \/
              (exists n, In n names /\ ~ has_dot n)).
  { induction names as [| n names IH].
    - left. intros ? [].
    - destruct (get_postfix_outcome n) as [(Hn & _) | (Hn & _)].
      + destruct IH as [IH | (m & Hm & Hd)].
        * left. intros m [<- | Hm]; auto.
        * right. exists m. split; [now right | exact Hd].
      + right. exists n. split; [now left | exact Hn]. }
  destruct D as [D | D].
  - left. split; [exact D |].
    destruct (classify_spec names D) as (pc & H & _). eauto.
  - right. split; [exact D |].
    unfold classify. now rewrite (seed_loop_raises names Dict.empty D).
Qed.

(** ** Exceptions *)

(** C3: on a list whose names all contain a dot the classifier returns,
    and a name is in the exceptions list if and only if it is a name of
    the list and the postfix of some other name of the list. *)
Theorem exception_iff_postfix_of_other (names : list string) :
  (forall n, In n names -> has_dot n) ->
  exists pc exc,
    classify names = Ok (pc, exc) /\
    exc = filter (postfix_in names) names /\
    forall n,
      In n exc <->
      In n names /\
      exists m, In m names /\ m <> n /\ get_postfix m = Ok n.
Proof.
  intros Hdots. destruct (classify_spec names Hdots) as (pc & Hrun & _).
  exists pc, (filter (postfix_in names) names).
  split; [exact Hrun | split; [reflexivity |]].
  intros n. rewrite filter_In. split.
  - intros [Hin Hp]. split; [exact Hin |].
    destruct (postfix_in_elim _ _ Hp) as (m & Hm & Hmp).
    exists m. split; [exact Hm | split; [| exact Hmp]].
    now apply get_postfix_neq.
  - intros [Hin (m & Hm & _ & Hmp)]. split; [exact Hin |].
    now apply postfix_in_intro with m.
Qed.

Lemma exception_iff_postfix_of_other_witness :
  exists pc exc,
    classify ["a.com"; "b.a.com"; "c.org"] = Ok (pc, exc) /\
    exc = filter (postfix_in ["a.com"; "b.a.com"; "c.org"])
            ["a.com"; "b.a.com"; "c.org"] /\
    forall n,
      In n exc <->
      In n ["a.com"; "b.a.com"; "c.org"] /\
      exists m, In m ["a.com"; "b.a.com"; "c.org"] /\ m <> n /\
                get_postfix m = Ok n.
Proof.
  apply (exception_iff_postfix_of_other ["a.com"; "b.a.com"; "c.org"]).
  intros n [<- | [<- | [<- | []]]]; unfold has_dot; cbn; tauto.
Defined.

(** ** Counting *)

Lemma filter_split_length {A : Type} (f : A -> bool) (l : list A) :
  (length (filter f l) + length (filter (fun x => negb (f x)) l))%nat =
  length l.
Proof.
  induction l as [| x l IH]; cbn; [reflexivity |].
  destruct (f x); cbn; lia.
Qed.

(** One turn of pass 2, from a state whose keys are the postfixes of the
    list: the name goes to the exceptions and the map is untouched, or
    the exceptions are untouched and exactly one count goes up by 1. *)
Lemma count_body_cases (names : list string) (n : string)
    (pc0 : Dict.t) (exc0 : list string) :
  In n names -> has_dot n ->
  (forall k, Dict.contains k pc0 = postfix_in names k) ->
  exists pc1 exc1,
    count_body n (pc0, exc0) = Ok (pc1, exc1) /\
    ((Dict.contains n pc0 = true /\ pc1 = pc0 /\ exc1 = exc0 ++ [n]) \/
     (Dict.contains n pc0 = false /\ exc1 = exc0 /\
      Dict.keys pc1 = Dict.keys pc0 /\
      Dict.total pc1 = Dict.total pc0 + 1 /\
      exists p c,
        get_postfix n = Ok p /\ Dict.get p pc0 = Some c /\
        Dict.get p pc1 = Some (c + 1) /\
        forall k, k <> p -> Dict.get k pc1 = Dict.get k pc0)).
Proof.
  intros Hin Hdot Hkeys. unfold count_body.
  destruct (Dict.contains n pc0) eqn:E.
  - exists pc0, (exc0 ++ [n]). split; [reflexivity | left; auto].
  - destruct (get_postfix_split n Hdot) as (_ & p & _ & _ & Hp).
    assert (Hk : Dict.contains p pc0 = true).
    { rewrite Hkeys. now apply postfix_in_intro with n. }
    destruct (proj1 (contains_get p pc0) Hk) as [c Hc].
    rewrite Hp. cbn [bind]. unfold Dict.getitem. rewrite Hc. cbn [bind].
    exists (Dict.set p (c + 1) pc0), exc0. split; [reflexivity | right].
    split; [reflexivity | split; [reflexivity | split; [| split]]].
    + now apply keys_set_present.
    + rewrite (total_set_present _ _ _ _ Hc). lia.
    + exists p, c. split; [reflexivity | split; [exact Hc | split]].
      * apply get_set_same.
      * intros k Hne. apply get_set_other. congruence.
Qed.

(** C9: on a list whose names all contain a dot the classifier returns;
    each turn of pass 2 either appends the name to the exceptions or
    raises exactly one count by 1, never both and never neither; the
    length of the exceptions plus the sum of the counts is the number of
    names. *)
Theorem every_name_counted_once (names : list string) :
  (forall n, In n names -> has_dot n) ->
  (exists pc exc,
     classify names = Ok (pc, exc) /\
     Z.of_nat (length exc) + Dict.total pc = Z.of_nat (length names)) /\
  (forall n pc0 exc0,
     In n names ->
     (forall k, Dict.contains k pc0 = postfix_in names k) ->
     exists pc1 exc1,
       count_body n (pc0, exc0) = Ok (pc1, exc1) /\
       ((Dict.contains n pc0 = true /\ pc1 = pc0 /\ exc1 = exc0 ++ [n]) \/
        (Dict.contains n pc0 = false /\ exc1 = exc0 /\
         Dict.keys pc1 = Dict.keys pc0 /\
         Dict.total pc1 = Dict.total pc0 + 1 /\
         exists p c,
           get_postfix n = Ok p /\ Dict.get p pc0 = Some c /\
           Dict.get p pc1 = Some (c + 1) /\
           forall k, k <> p -> Dict.get k pc1 = Dict.get k pc0))).
Proof.
  intros Hdots. split.
  - destruct (classify_spec names Hdots) as (pc & Hrun & _ & _ & Htot & _).
    exists pc, (filter (postfix_in names) names). split; [exact Hrun |].
    rewrite Htot, <- Nat2Z.inj_add, filter_split_length. reflexivity.
  - intros n pc0 exc0 Hin Hkeys.
    apply count_body_cases with names; auto.
Qed.

Lemma every_name_counted_once_witness :
  exists pc exc,
    classify ["a.com"; "b.a.com"; "c.a.com"; "d.org"] = Ok (pc, exc) /\
    Z.of_nat (length exc) + Dict.total pc = 4.
Proof.
  apply (every_name_counted_once ["a.com"; "b.a.com"; "c.a.com"; "d.org"]).
  intros n [<- | [<- | [<- | [<- | []]]]]; unfold has_dot; cbn; tauto.
Defined.

(** ** Postfixes that are also names of the list *)

(** The map between the two passes and the map at the end: pass 1
    writes only zeros, its keys are the postfixes of the names, and pass 2
    keeps the key list as it is. *)
Lemma classify_passes (names : list string) :
  (forall n, In n names -> has_dot n) ->
  exists pc0 pc,
    for_each names seed_body Dict.empty = Ok pc0 /\
    for_each names count_body (pc0, []) =
      Ok (pc, filter (postfix_in names) names) /\
    classify names = Ok (pc, filter (postfix_in names) names) /\
    Forall zero_count pc0 /\
    (forall k, Dict.contains k pc0 = postfix_in names k) /\
    Dict.keys pc = Dict.keys pc0.
Proof.
  intros Hdots.
  destruct (seed_loop names Dict.empty Hdots) as (pc0 & Hseed & Hk0 & Hz & _).
  specialize (Hz (Forall_nil _)).
  cbn [Dict.contains Dict.empty orb] in Hk0.
  destruct (count_loop (postfix_in names) names pc0 [] Hk0)
    as (pc & Hrun & Hk & _).
  { intros n Hn. right.
    destruct (get_postfix_split n (Hdots n Hn)) as (_ & p & _ & _ & Hp).
    exists p. split; [exact Hp | now apply postfix_in_intro with n]. }
  cbn [app] in Hrun.
  exists pc0, pc. repeat split; try assumption.
  unfold classify. rewrite Hseed. cbn [bind]. exact Hrun.
Qed.


Lemma all_have_dots (names : list string) :
  forallb has_dotb names = true -> forall n, In n names -> has_dot n.
Proof.
  intros H n Hn. rewrite forallb_forall in H. specialize (H n Hn).
  unfold has_dotb in H. destruct (get_postfix n) as [p |] eqn:E.
  - now apply get_postfix_ok_has_dot with p.
  - discriminate.
Qed.





(** ** The driver *)

Lemma generate_regex_eq (project_id : Z) (s : Session) :
  generate_regex project_id s =
  (regex_of_names (names_of project_id (domains s)), s).
Proof. reflexivity. Qed.

Lemma regex_of_names_ok (names : list string) :
  (forall n, In n names -> has_dot n) ->
  exists re, regex_of_names names = Ok re.
Proof.
  intros Hdots. destruct (classify_spec names Hdots) as (pc & Hrun & _).
  unfold regex_of_names. rewrite Hrun. cbn [bind].
  rewrite _generate_regex_eq. eauto.
Qed.

Lemma in_names_of (project_id : Z) (rows : list Domain.t) (n : string) :
  In n (names_of project_id rows) ->
  exists d, In d rows /\ Domain.name d = n.
Proof.
  unfold names_of. rewrite in_map_iff. intros (d & Hd & Hin).
  apply filter_In in Hin. exists d. tauto.
Qed.

Lemma in_distinct (x : Z) (l : list Z) : In x (distinct l) <-> In x l.
Proof.
  induction l as [| y l IH]; cbn [distinct In]; [tauto |].
  rewrite filter_In, IH, negb_true_iff, Z.eqb_neq.
  destruct (Z.eq_dec y x); intuition congruence.
Qed.

Lemma distinct_NoDup (l : list Z) : NoDup (distinct l).
Proof.
  induction l as [| y l IH]; cbn [distinct]; constructor.
  - rewrite filter_In, negb_true_iff, Z.eqb_neq. tauto.
  - now apply NoDup_filter.
Qed.

Lemma in_project_ids (rows : list Domain.t) (project_id : Z) :
  In project_id (project_ids rows) <-> has_project rows project_id.
Proof.
  unfold project_ids, has_project. rewrite in_distinct, in_map_iff.
  split; intros (d & H1 & H2); exists d; tauto.
Qed.

(** The loop of the driver on well-formed projects: one rule is appended
    per id, in order, and the session is left as it was. *)
Lemma main_loop (ids : list Z) (rules : list Rule.t) (s : Session) :
  (forall pid n, In pid ids -> In n (names_of pid (domains s)) -> has_dot n) ->
  exists new,
    for_eachM ids main_body rules s = (Ok (rules ++ new), s) /\
    Forall2 (rule_for (domains s)) ids new.
Proof.
  revert rules. induction ids as [| pid ids IH]; intros rules Hdots.
  - exists []. cbn. rewrite app_nil_r. split; [reflexivity | constructor].
  - destruct (regex_of_names_ok (names_of pid (domains s))) as [re Hre].
    { intros n. apply Hdots. now left. }
    destruct (IH (rules ++ [Rule.mk pid re])) as (new & Hrun & Hall).
    { intros p n Hp. apply Hdots. now right. }
    exists (Rule.mk pid re :: new).
    cbn [for_eachM]. unfold bindM, main_body at 1, bindM.
    rewrite generate_regex_eq, Hre. unfold retM. rewrite Hrun.
    rewrite <- app_assoc. split; [reflexivity |].
    constructor; [| exact Hall]. split; [reflexivity | exact Hre].
Qed.

Lemma rules_of_rule_for (rows : list Domain.t) (ids : list Z)
    (rules : list Rule.t) (pid : Z) :
  Forall2 (rule_for rows) ids rules -> NoDup ids ->
  (In pid ids ->
   exists re,
     regex_of_names (names_of pid rows) = Ok re /\
     rules_of pid rules = [Rule.mk pid re]) /\
  (~ In pid ids -> rules_of pid rules = []).
Proof.
  induction 1 as [| i r ids rules [Hi Hre] Hall IH]; intros Hnd.
  - split; [intros [] | reflexivity].
  - inversion Hnd as [| ? ? Hnotin Hnd']; subst.
    destruct (IH Hnd') as [IHin IHout]. unfold rules_of in *. cbn [filter].
    destruct (Z.eqb_spec (Rule.project_id r) pid) as [E | E].
    + split; [| intros Hno; exfalso; apply Hno; now left].
      intros _. exists (Rule.regexp r). rewrite <- E. split; [exact Hre |].
      rewrite E, IHout by (rewrite <- E; exact Hnotin).
      destruct r; cbn in *; congruence.
    + split.
      * intros [Heq | Hin]; [congruence | now apply IHin].
      * intros Hno. apply IHout. intros Hin. apply Hno. now right.
Qed.

Lemma regex_of_names_raises (names : list string) :
  (exists n, In n names /\ ~ has_dot n) ->
  regex_of_names names = Raise InvalidName.
Proof.
  intros (n & Hn & Hd).
  destruct (classify_outcome names) as [[Hall _] | [_ Hraise]].
  - destruct (Hd (Hall n Hn)).
  - unfold regex_of_names. now rewrite Hraise.
Qed.

(** The loop of the driver stops at the first project that holds a name
    without a dot; the session is as it was. *)
Lemma main_loop_raises (ids : list Z) (rules : list Rule.t) (s : Session) :
  (exists pid n,
     In pid ids /\ In n (names_of pid (domains s)) /\ ~ has_dot n) ->
  for_eachM ids main_body rules s = (Raise InvalidName, s).
Proof.
  revert rules. induction ids as [| pid0 ids IH]; intros rules Hbad.
  - destruct Hbad as (? & ? & [] & _).
  - cbn [for_eachM]. unfold bindM, main_body at 1, bindM.
    rewrite generate_regex_eq.
    destruct (classify_outcome (names_of pid0 (domains s)))
      as [[Hall _] | [Hbad0 _]].
    + destruct (regex_of_names_ok _ Hall) as [re Hre]. rewrite Hre.
      unfold retM. apply IH.
      destruct Hbad as (pid & n & Hin & Hn & Hd). exists pid, n.
      destruct Hin as [<- | Hin]; [destruct (Hd (Hall n Hn)) | auto].
    + now rewrite (regex_of_names_raises _ Hbad0).
Qed.

(** C7, as the code has it: on a store in which every name contains a
    dot the driver completes and leaves, for every project id of the
    [domains] table, exactly one pending rule with that id, carrying the
    regex computed from the names of that project, and no rule for an id
    that is absent from the table; on a store in which some name has no
    dot the run stops with [InvalidName] before [add_all] and no rule is
    pending for any project. *)
Theorem one_rule_per_project (rows : list Domain.t) :
  ((forall d, In d rows -> has_dot (Domain.name d)) ->
   exists rules,
     run rows = (Ok tt, mkSession rows rules) /\
     (forall project_id,
         has_project rows project_id ->
         exists re,
           regex_of_names (names_of project_id rows) = Ok re /\
           rules_of project_id rules = [Rule.mk project_id re]) /\
     (forall project_id,
         ~ has_project rows project_id -> rules_of project_id rules = [])) /\
  ((exists d, In d rows /\ ~ has_dot (Domain.name d)) ->
   run rows = (Raise InvalidName, mkSession rows []) /\
   forall project_id,
     rules_of project_id (pending (snd (run rows))) = []).
Proof.
  split.
  - intros Hdots.
    destruct (main_loop (project_ids rows) [] (mkSession rows []))
      as (rules & Hrun & Hall).
    { intros pid n _ Hn. apply in_names_of in Hn.
      destruct Hn as (d & Hd & <-). now apply Hdots. }
    cbn [domains app] in Hrun, Hall.
    exists rules. split; [| split].
    + unfold run, main, bindM, query_project_ids. cbn [domains].
      rewrite Hrun. reflexivity.
    + intros pid Hp. apply in_project_ids in Hp.
      now apply (rules_of_rule_for rows (project_ids rows) rules pid Hall
                   (distinct_NoDup _)).
    + intros pid Hp. rewrite <- in_project_ids in Hp.
      now apply (rules_of_rule_for rows (project_ids rows) rules pid Hall
                   (distinct_NoDup _)).
  - intros (d & Hd & Hdot).
    assert (E : run rows = (Raise InvalidName, mkSession rows [])).
    { unfold run, main, bindM, query_project_ids. cbn [domains].
      rewrite main_loop_raises; [reflexivity |].
      exists (Domain.project_id d), (Domain.name d). cbn [domains].
      split; [| split; [| exact Hdot]].
      - apply in_project_ids. now exists d.
      - unfold names_of. apply in_map. apply filter_In.
        split; [exact Hd | apply Z.eqb_refl]. }
    split; [exact E |]. intros pid. rewrite E. reflexivity.
Qed.

Lemma one_rule_per_project_witness :
  (exists rules,
     run small_store = (Ok tt, mkSession small_store rules) /\
     (forall project_id,
         has_project small_store project_id ->
         exists re,
           regex_of_names (names_of project_id small_store) = Ok re /\
           rules_of project_id rules = [Rule.mk project_id re]) /\
     (forall project_id,
         ~ has_project small_store project_id ->
         rules_of project_id rules = [])) /\
  (run mixed_store = (Raise InvalidName, mkSession mixed_store []) /\
   forall project_id,
     rules_of project_id (pending (snd (run mixed_store))) = []).
Proof.
  split.
  - apply (proj1 (one_rule_per_project small_store)).
    intros d [<- | [<- | [<- | []]]]; unfold has_dot; cbn; tauto.
  - apply (proj2 (one_rule_per_project mixed_store)).
    exists (Domain.mk 2 "localhost"). split; [right; now left |].
    unfold has_dot. cbn. intuition discriminate.
Defined.

(** A name without a dot in project 2 stops the run with [InvalidName]
    before [add_all]: no rule is pending, not even for project 1. *)
Lemma invalid_name_aborts_run :
  has_project mixed_store 1 /\
  run mixed_store = (Raise InvalidName, mkSession mixed_store []) /\
  rules_of 1 (pending (snd (run mixed_store))) = [] /\
  ~ one_rule_for_every_store.
Proof.
  split; [| split; [| split]].
  - exists (Domain.mk 1 "b.a.com"). split; [now left | reflexivity].
  - vm_compute. reflexivity.
  - vm_compute. reflexivity.
  - intros H. destruct (H mixed_store) as (rules & Hs & Hone).
    assert (E : rules = []) by (vm_compute in Hs; congruence).
    subst rules.
    assert (Hp : has_project mixed_store 1).
    { exists (Domain.mk 1 "b.a.com"). split; [now left | reflexivity]. }
    specialize (Hone 1 Hp). cbn in Hone. discriminate.
Qed.

(** ** Determinism *)

(** C8: [generate_regex] reads the session and leaves it as it was, so a
    second run on the same session gives the same outcome, the same
    string when the first run returns one; and its outcome depends on
    the session only through the list of names of the project. *)
Theorem generate_regex_deterministic (project_id : Z) (s : Session) :
  (exists o,
     generate_regex project_id s = (o, s) /\
     generate_regex_twice project_id s = (r <- o ;; Ok (r, r), s)) /\
  (forall s',
     names_of project_id (domains s') = names_of project_id (domains s) ->
     fst (generate_regex project_id s') = fst (generate_regex project_id s)).
Proof.
  split.
  - exists (regex_of_names (names_of project_id (domains s))).
    split; [apply generate_regex_eq |].
    unfold generate_regex_twice, bindM. rewrite generate_regex_eq.
    destruct (regex_of_names (names_of project_id (domains s))) as [r | e] eqn:E.
    + rewrite generate_regex_eq, E. reflexivity.
    + reflexivity.
  - intros s' Hnames. rewrite !generate_regex_eq. cbn [fst].
    now rewrite Hnames.
Qed.

Lemma generate_regex_deterministic_witness :
  fst (generate_regex 1 (mkSession small_store [Rule.mk 7 "x"])) =
  fst (generate_regex 1 (mkSession (Domain.mk 3 "z.net" :: small_store) [])).
Proof.
  apply (proj2 (generate_regex_deterministic
                  1 (mkSession (Domain.mk 3 "z.net" :: small_store) []))).
  reflexivity.
Defined.

(** ** Boundary cases *)

Lemma filter_none {A : Type} (f : A -> bool) (l : list A) :
  (forall x, In x l -> f x = false) -> filter f l = [].
Proof.
  induction l as [| x l IH]; intros H; cbn; [reflexivity |].
  rewrite (H x (or_introl eq_refl)). apply IH. intros y Hy. apply H. now right.
Qed.

(** C6: on the empty list the classifier returns the empty map and the
    empty exceptions list and the regex is the empty string, as is the
    regex of a project without rows; and whenever no count exceeds
    [TOO_MANY] and there are no exceptions the assembler returns the
    empty string. *)
Theorem empty_input_empty_regex :
  classify [] = Ok (Dict.empty, []) /\
  regex_of_names [] = Ok "" /\
  (forall project_id s,
      names_of project_id (domains s) = [] ->
      generate_regex project_id s = (Ok "", s)) /\
  (forall postfix_count,
      (forall p c, Dict.get p postfix_count = Some c -> c <= TOO_MANY) ->
      _generate_regex postfix_count [] = Ok "").
Proof.
  split; [reflexivity | split; [reflexivity | split]].
  - intros pid s H. rewrite generate_regex_eq, H. reflexivity.
  - intros pc H. rewrite _generate_regex_eq.
    rewrite filter_none; [reflexivity |].
    intros p _. destruct (too_many pc p) eqn:E; [| reflexivity].
    apply too_many_iff in E. destruct E as (c & Hc & Hgt).
    specialize (H p c Hc). lia.
Qed.

Lemma empty_input_empty_regex_witness :
  generate_regex 5 (mkSession small_store []) =
    (Ok "", mkSession small_store []) /\
  _generate_regex [("a.com", 50); ("b.com", 10)] [] = Ok "".
Proof.
  destruct empty_input_empty_regex as (_ & _ & Hgen & Hasm). split.
  - apply Hgen. reflexivity.
  - apply Hasm. intros p c. unfold TOO_MANY. cbn [Dict.get].
    destruct (String.eqb "a.com" p); [intros [= E]; lia |].
    destruct (String.eqb "b.com" p); [intros [= E]; lia | discriminate].
Defined.

(** ** Escaping *)

(** C2: the assembler leaves the dots of postfixes and exception names
    as they are: the value of [replace] is dropped.  On the counts
    [{"a.com": 51, "b.com": 10}] it returns the fragment with [a.com],
    not with the escaped text that [replace] computes. *)
Theorem assembler_leaves_dots_unescaped :
  _generate_regex [("a.com", 51); ("b.com", 10)] [] =
    Ok "[a-zA-Z0-9\-]+\.a.com" /\
  _generate_regex [("a.com", 51); ("b.com", 10)] ["x.a.com"] =
    Ok "(?!^x.a.com$)[a-zA-Z0-9\-]+\.a.com" /\
  _generate_regex [("a.com", 51); ("b.com", 10)] [] <>
    Ok "[a-zA-Z0-9\-]+\.a\.com" /\
  _generate_regex [("a.com", 51); ("b.com", 10)] ["x.a.com"] <>
    Ok "(?!^x\.a\.com$)[a-zA-Z0-9\-]+\.a\.com" /\
  Str.replace "a.com" "." "\." = "a\.com" /\
  Str.replace "x.a.com" "." "\." = "x\.a\.com".
Proof.
  repeat split; try (vm_compute; reflexivity);
    vm_compute; discriminate.
Qed.

(** ** The empty postfix *)

(** C10: a name whose first dot is its last character has the empty
    postfix; the empty postfix is a key of the count map like any other
    postfix and its count is the number of entries counted towards it;
    when its count exceeds [TOO_MANY] its fragment, which ends with the
    escaped dot, is in the garbage list; on 51 such names the regex is
    that fragment. *)
Theorem empty_postfix_is_a_key :
  (forall pre, ~ has_dot pre -> get_postfix (pre ++ ".")%string = Ok "") /\
  get_postfix "a." = Ok "" /\
  garbage_fragment "" = "[a-zA-Z0-9\-]+\." /\
  (forall names n,
      (forall m, In m names -> has_dot m) ->
      In n names -> get_postfix n = Ok "" ->
      exists pc exc,
        classify names = Ok (pc, exc) /\
        Dict.get "" pc = Some (Z.of_nat (length (counted names "")))) /\
  (forall postfix_count c,
      Dict.get "" postfix_count = Some c -> c > TOO_MANY ->
      exists garbage,
        garbage_of postfix_count = Ok garbage /\
        In "[a-zA-Z0-9\-]+\." garbage) /\
  regex_of_names (subdomains 51 "") = Ok "[a-zA-Z0-9\-]+\.".
Proof.
  split; [| split; [| split; [| split; [| split]]]].
  - intros pre H. now apply (get_postfix_app pre "").
  - reflexivity.
  - reflexivity.
  - intros names n Hdots Hin Hn.
    destruct (classify_spec names Hdots) as (pc & Hrun & _ & Hget & _).
    exists pc, (filter (postfix_in names) names). split; [exact Hrun |].
    now rewrite Hget, (postfix_in_intro names n "" Hin Hn).
  - intros pc c Hc Hgt. eexists. split; [apply garbage_of_eq |].
    change "[a-zA-Z0-9\-]+\." with (garbage_fragment "").
    apply in_garbage_iff. now exists c.
  - vm_compute. reflexivity.
Qed.

Lemma empty_postfix_is_a_key_witness :
  get_postfix ("a" ++ ".")%string = Ok "" /\
  (exists pc exc,
     classify ["a."; "b."] = Ok (pc, exc) /\
     Dict.get "" pc = Some (Z.of_nat (length (counted ["a."; "b."] "")))) /\
  exists garbage,
    garbage_of [("", 51)] = Ok garbage /\ In "[a-zA-Z0-9\-]+\." garbage.
Proof.
  destruct empty_postfix_is_a_key as (Hpre & _ & _ & Hkey & Hfrag & _).
  split; [| split].
  - apply Hpre. unfold has_dot. cbn. intuition discriminate.
  - apply (Hkey ["a."; "b."] "a.").
    + apply all_have_dots. vm_compute. reflexivity.
    + now left.
    + reflexivity.
  - apply (Hfrag [("", 51)] 51); [reflexivity | unfold TOO_MANY; lia].
Defined.


(** * Further properties of the code *)

(** ** Outcome of the classifier and of the run *)

(** X1: the classifier never raises [KeyError]: the lookups of pass 2
    only reach keys that pass 1 has assigned.  It returns exactly when
    every name has a dot and raises [InvalidName] exactly when some name
    has none. *)
Theorem classify_never_key_error (names : list string) :
  (forall k, classify names <> Raise (KeyError k)) /\
  ((exists r, classify names = Ok r) <->
   (forall n, In n names -> has_dot n)) /\
  (classify names = Raise InvalidName <->
   (exists n, In n names /\ ~ has_dot n)).
Proof.
  destruct (classify_outcome names) as [[Hall [r Hr]] | [Hbad Hraise]].
  - split; [| split].
    + intros k. rewrite Hr. discriminate.
    + split; [intros _; exact Hall | intros _; now exists r].
    + split; [rewrite Hr; discriminate |].
      intros (n & Hn & Hd). destruct (Hd (Hall n Hn)).
  - split; [| split].
    + intros k. rewrite Hraise. discriminate.
    + split.
      * intros [r Hr]. rewrite Hraise in Hr. discriminate.
      * intros Hall. destruct Hbad as (n & Hn & Hd). destruct (Hd (Hall n Hn)).
    + split; [intros _; exact Hbad | intros _; exact Hraise].
Qed.

Lemma rows_all_or_bad (rows : list Domain.t) :
  (forall d, In d rows -> has_dot (Domain.name d)) \/
  (exists d, In d rows /\ ~ has_dot (Domain.name d)).
Proof.
  induction rows as [| d rows IH].
  - left. intros ? [].
  - destruct (get_postfix_outcome (Domain.name d)) as [(Hd & _) | (Hd & _)].
    + destruct IH as [IH | (b & Hb & Hbad)].
      * left. intros x [<- | Hx]; auto.
      * right. exists b. split; [now right | exact Hbad].
    + right. exists d. split; [now left | exact Hd].
Qed.

(** X2: the run either completes, when every name of the store has a
    dot, or stops with [InvalidName], when some name has none; in the
    second case [add_all] is not reached and no rule is pending, whatever
    the project of the offending name.  It never ends with
    [KeyError]. *)
Theorem run_completes_or_aborts (rows : list Domain.t) :
  ((forall d, In d rows -> has_dot (Domain.name d)) /\
   fst (run rows) = Ok tt /\
   map Rule.project_id (pending (snd (run rows))) = project_ids rows) \/
  ((exists d, In d rows /\ ~ has_dot (Domain.name d)) /\
   run rows = (Raise InvalidName, mkSession rows [])).
Proof.
  destruct (rows_all_or_bad rows) as [Hall | Hbad]; [left | right].
  - split; [exact Hall |].
    destruct (main_loop (project_ids rows) [] (mkSession rows []))
      as (rules & Hrun & Hrules).
    { intros pid n _ Hn. apply in_names_of in Hn.
      destruct Hn as (d & Hd & <-). now apply Hall. }
    cbn [domains app] in Hrun, Hrules.
    unfold run, main, bindM, query_project_ids. cbn [domains].
    rewrite Hrun. cbn. split; [reflexivity |].
    clear Hrun. induction Hrules as [| pid r ids rules [Hpid _] _ IH].
    + reflexivity.
    + cbn [map]. now rewrite Hpid, IH.
  - split; [exact Hbad |].
    destruct Hbad as (d & Hd & Hdot).
    unfold run, main, bindM, query_project_ids. cbn [domains].
    rewrite main_loop_raises; [reflexivity |].
    exists (Domain.project_id d), (Domain.name d). cbn [domains].
    split; [| split; [| exact Hdot]].
    + apply in_project_ids. now exists d.
    + unfold names_of. apply in_map. apply filter_In.
      split; [exact Hd | apply Z.eqb_refl].
Qed.

(** ** Order of the keys *)

Lemma filter_filter_and {A : Type} (f g : A -> bool) (l : list A) :
  filter f (filter g l) = filter (fun x => g x && f x) l.
Proof.
  induction l as [| x l IH]; cbn; [reflexivity |].
  destruct (g x); cbn; [destruct (f x) |]; now rewrite IH.
Qed.

Lemma postfixes_cons (n p : string) (names : list string) :
  get_postfix n = Ok p -> postfixes (n :: names) = p :: postfixes names.
Proof. intros H. unfold postfixes. cbn [flat_map]. now rewrite H. Qed.

(** Pass 1 appends the postfixes that are new, each at its first
    occurrence, behind the keys that were there. *)
Lemma seed_loop_keys (names : list string) (d0 : Dict.t) :
  (forall n, In n names -> has_dot n) ->
  exists d,
    for_each names seed_body d0 = Ok d /\
    Dict.keys d =
    Dict.keys d0 ++
    filter (fun p => negb (Dict.contains p d0))
           (first_occurrences (postfixes names)).
Proof.
  revert d0. induction names as [| n names IH]; intros d0 Hdots.
  - exists d0. cbn. now rewrite app_nil_r.
  - destruct (get_postfix_split n (Hdots n (or_introl eq_refl)))
      as (_ & p & _ & _ & Hp).
    destruct (IH (Dict.set p 0 d0)) as (d & Hrun & Hkeys).
    { intros m Hm. apply Hdots. now right. }
    exists d. cbn [for_each]. unfold seed_body at 1. rewrite Hp. cbn [bind].
    split; [exact Hrun |].
    rewrite Hkeys, (postfixes_cons _ _ _ Hp).
    cbn [first_occurrences filter]. rewrite filter_filter_and.
    rewrite (filter_ext
               (fun q => negb (Dict.contains q (Dict.set p 0 d0)))
               (fun q => negb (String.eqb p q) && negb (Dict.contains q d0)))
      by (intros q; now rewrite contains_set, negb_orb).
    destruct (Dict.contains p d0) eqn:E; cbn [negb].
    + now rewrite keys_set_present.
    + rewrite keys_set_absent by exact E. now rewrite <- app_assoc.
Qed.

(** Everything the two passes establish, in one statement. *)
Lemma classify_full (names : list string) :
  (forall n, In n names -> has_dot n) ->
  exists pc,
    classify names = Ok (pc, filter (postfix_in names) names) /\
    Dict.keys pc = first_occurrences (postfixes names) /\
    NoDup (Dict.keys pc) /\
    (forall k, Dict.contains k pc = postfix_in names k) /\
    (forall k,
        Dict.get k pc =
        if postfix_in names k
        then Some (Z.of_nat (length (counted names k)))
        else None).
Proof.
  intros Hdots.
  destruct (classify_spec names Hdots) as (pc & Hrun & Hin & Hget & _ & Hnd).
  exists pc. repeat split; try assumption.
  destruct (seed_loop_keys names Dict.empty Hdots) as (pc0 & Hseed & Hkeys).
  destruct (seed_loop names Dict.empty Hdots) as (pc0' & Hseed' & Hk0 & _).
  assert (pc0' = pc0) by congruence. subst pc0'.
  cbn [Dict.contains Dict.empty orb] in Hk0.
  destruct (count_loop (postfix_in names) names pc0 [] Hk0)
    as (pc' & Hrun' & Hk & _).
  { intros n Hn. right.
    destruct (get_postfix_split n (Hdots n Hn)) as (_ & p & _ & _ & Hp).
    exists p. split; [exact Hp | now apply postfix_in_intro with n]. }
  assert (E : classify names = Ok (pc', filter (postfix_in names) names)).
  { unfold classify. rewrite Hseed. cbn [bind]. exact Hrun'. }
  assert (pc' = pc) by congruence. subst pc'.
  rewrite Hk, Hkeys. cbn [Dict.keys Dict.empty map app Dict.contains negb].
  apply filter_true.
Qed.

(** X3: on names that all have a dot, the keys of the count map after
    pass 1 are the postfixes of the names, each once, in the order of
    their first occurrence in the list; pass 2, run from that map, ends
    with the same list of keys: it adds and removes no key. *)
Theorem keys_are_first_occurrences (names : list string) :
  (forall n, In n names -> has_dot n) ->
  exists pc0 pc exc,
    for_each names seed_body Dict.empty = Ok pc0 /\
    for_each names count_body (pc0, []) = Ok (pc, exc) /\
    classify names = Ok (pc, exc) /\
    Dict.keys pc0 = first_occurrences (postfixes names) /\
    Dict.keys pc = Dict.keys pc0 /\
    NoDup (Dict.keys pc) /\
    (forall p,
        In p (Dict.keys pc) <->
        exists n, In n names /\ get_postfix n = Ok p).
Proof.
  intros Hdots.
  destruct (classify_passes names Hdots)
    as (pc0 & pc & Hseed & Hcount & Hrun & _ & _ & Hsame).
  destruct (classify_full names Hdots)
    as (pc' & Hrun' & Hkeys & Hnd & Hin & _).
  assert (pc' = pc) by congruence. subst pc'.
  exists pc0, pc, (filter (postfix_in names) names).
  split; [exact Hseed | split; [exact Hcount | split; [exact Hrun |]]].
  split; [now rewrite <- Hsame |].
  split; [exact Hsame | split; [exact Hnd |]].
  intros p. rewrite <- contains_keys, Hin. split.
  - apply postfix_in_elim.
  - intros (n & Hn & Hp). now apply postfix_in_intro with n.
Qed.

Lemma keys_are_first_occurrences_witness :
  exists pc0 pc exc,
    for_each ["b.org"; "a.com"; "c.org"; "d.a.com"] seed_body Dict.empty =
      Ok pc0 /\
    for_each ["b.org"; "a.com"; "c.org"; "d.a.com"] count_body (pc0, []) =
      Ok (pc, exc) /\
    Dict.keys pc0 = ["org"; "com"; "a.com"] /\
    Dict.keys pc = ["org"; "com"; "a.com"].
Proof.
  destruct (keys_are_first_occurrences ["b.org"; "a.com"; "c.org"; "d.a.com"])
    as (pc0 & pc & exc & Hseed & Hcount & _ & Hkeys0 & Hkeys & _).
  - apply all_have_dots. vm_compute. reflexivity.
  - exists pc0, pc, exc. split; [exact Hseed | split; [exact Hcount |]].
    rewrite Hkeys, Hkeys0. split; reflexivity.
Defined.

(** ** The regex in closed form *)

Lemma too_many_garbage_test (names : list string) (pc : Dict.t) :
  (forall k,
      Dict.get k pc =
      if postfix_in names k
      then Some (Z.of_nat (length (counted names k)))
      else None) ->
  (forall k, Dict.contains k pc = postfix_in names k) ->
  filter (too_many pc) (Dict.keys pc) =
  filter (garbage_test names) (Dict.keys pc).
Proof.
  intros Hget Hin. apply filter_ext_in. intros k Hk.
  apply contains_keys in Hk. rewrite Hin in Hk.
  unfold too_many, garbage_test. now rewrite Hget, Hk.
Qed.

(** X4: the regex of a list of names that all have a dot is, first, one
    lookahead per entry that is the postfix of an entry, in list order,
    then, joined by ["|"], one fragment per postfix that more than
    [TOO_MANY] entries are counted towards, in the order in which the
    postfixes first occur in the list. *)
Theorem regex_closed_form (names : list string) :
  (forall n, In n names -> has_dot n) ->
  regex_of_names names =
  Ok (lookaheads (filter (postfix_in names) names) ++
      Str.join "|"
        (map garbage_fragment
           (filter (garbage_test names)
                   (first_occurrences (postfixes names)))))%string.
Proof.
  intros Hdots.
  destruct (classify_full names Hdots) as (pc & Hrun & Hkeys & _ & Hin & Hget).
  unfold regex_of_names. rewrite Hrun. cbn [bind].
  rewrite _generate_regex_eq.
  now rewrite (too_many_garbage_test names pc Hget Hin), Hkeys.
Qed.

Lemma regex_closed_form_witness :
  regex_of_names ["b.org"; "a.com"; "c.org"; "d.a.com"] =
  Ok (lookaheads
        (filter (postfix_in ["b.org"; "a.com"; "c.org"; "d.a.com"])
                ["b.org"; "a.com"; "c.org"; "d.a.com"]) ++
      Str.join "|"
        (map garbage_fragment
           (filter (garbage_test ["b.org"; "a.com"; "c.org"; "d.a.com"])
              (first_occurrences
                 (postfixes ["b.org"; "a.com"; "c.org"; "d.a.com"])))))%string.
Proof.
  apply (regex_closed_form ["b.org"; "a.com"; "c.org"; "d.a.com"]).
  apply all_have_dots. vm_compute. reflexivity.
Defined.

(** ** What it takes to reach the threshold *)

Lemma filter_and_le_l {A : Type} (f g : A -> bool) (l : list A) :
  (length (filter (fun x => f x && g x) l) <= length (filter f l))%nat.
Proof.
  induction l as [| x l IH]; cbn; [lia |].
  destruct (f x), (g x); cbn; lia.
Qed.

Lemma filter_and_le_r {A : Type} (f g : A -> bool) (l : list A) :
  (length (filter (fun x => f x && g x) l) <= length (filter g l))%nat.
Proof.
  induction l as [| x l IH]; cbn; [lia |].
  destruct (f x), (g x); cbn; lia.
Qed.

Lemma counted_le_sharing (names : list string) (p : string) :
  (length (counted names p) <=
   length (filter (is_postfix_of p) names))%nat.
Proof. apply filter_and_le_r. Qed.

Lemma counted_le_not_exceptions (names : list string) (p : string) :
  (length (counted names p) <= length (not_exceptions names))%nat.
Proof.
  apply (filter_and_le_l (fun n => negb (postfix_in names n))
                         (is_postfix_of p)).
Qed.

(** X5: a postfix gets a fragment only when more than 50 entries of the
    list have it as their postfix; and a list with at most 50 entries
    that are not the postfix of an entry has no garbage alternation at
    all: its regex is the lookaheads of its exceptions and nothing
    else. *)
Theorem garbage_needs_many_names (names : list string) :
  (forall n, In n names -> has_dot n) ->
  exists pc exc garbage,
    classify names = Ok (pc, exc) /\
    garbage_of pc = Ok garbage /\
    (forall p,
        In (garbage_fragment p) garbage ->
        (50 < length (filter (is_postfix_of p) names))%nat) /\
    ((length (not_exceptions names) <= 50)%nat ->
     garbage = [] /\ regex_of_names names = Ok (lookaheads exc)).
Proof.
  intros Hdots.
  destruct (classify_full names Hdots) as (pc & Hrun & _ & _ & Hin & Hget).
  exists pc, (filter (postfix_in names) names).
  eexists. split; [exact Hrun | split; [apply garbage_of_eq | split]].
  - intros p Hp. apply in_garbage_iff in Hp.
    destruct Hp as (c & Hc & Hgt). rewrite Hget in Hc.
    destruct (postfix_in names p); [| discriminate].
    injection Hc as <-. pose proof (counted_le_sharing names p).
    unfold TOO_MANY in Hgt. lia.
  - intros Hfew.
    assert (E : filter (too_many pc) (Dict.keys pc) = []).
    { apply filter_none. intros p _.
      destruct (too_many pc p) eqn:Ep; [| reflexivity].
      apply too_many_iff in Ep. destruct Ep as (c & Hc & Hgt).
      rewrite Hget in Hc. destruct (postfix_in names p); [| discriminate].
      injection Hc as <-. pose proof (counted_le_not_exceptions names p).
      unfold TOO_MANY in Hgt. lia. }
    rewrite E. split; [reflexivity |].
    unfold regex_of_names. rewrite Hrun. cbn [bind].
    rewrite _generate_regex_eq, E. cbn [map Str.join String.concat].
    now rewrite string_app_nil_r.
Qed.

Lemma garbage_needs_many_names_witness :
  exists pc exc garbage,
    classify ["a.com"; "b.a.com"; "c.a.com"] = Ok (pc, exc) /\
    garbage_of pc = Ok garbage /\
    garbage = [] /\
    regex_of_names ["a.com"; "b.a.com"; "c.a.com"] = Ok (lookaheads exc).
Proof.
  destruct (garbage_needs_many_names ["a.com"; "b.a.com"; "c.a.com"])
    as (pc & exc & garbage & Hrun & Hg & _ & Hfew).
  - apply all_have_dots. vm_compute. reflexivity.
  - exists pc, exc, garbage. split; [exact Hrun | split; [exact Hg |]].
    apply Hfew. vm_compute. lia.
Defined.

(** ** Independence of the order of the rows *)

Lemma existsb_Permutation {A : Type} (f : A -> bool) (l l' : list A) :
  Permutation l l' -> existsb f l = existsb f l'.
Proof.
  induction 1 as [| x l l' _ IH | x y l | l l' l'' _ IH1 _ IH2]; cbn.
  - reflexivity.
  - now rewrite IH.
  - now destruct (f x), (f y).
  - congruence.
Qed.

Lemma filter_Permutation {A : Type} (f : A -> bool) (l l' : list A) :
  Permutation l l' -> Permutation (filter f l) (filter f l').
Proof.
  induction 1 as [| x l l' _ IH | x y l | l l' l'' _ IH1 _ IH2]; cbn.
  - constructor.
  - destruct (f x); [now constructor | exact IH].
  - destruct (f x), (f y); try apply Permutation_refl. constructor.
  - now apply Permutation_trans with (filter f l').
Qed.

Lemma postfix_in_Permutation (names names' : list string) (p : string) :
  Permutation names names' -> postfix_in names p = postfix_in names' p.
Proof. apply existsb_Permutation. Qed.

Lemma counted_Permutation (names names' : list string) (p : string) :
  Permutation names names' ->
  Permutation (counted names p) (counted names' p).
Proof.
  intros H. unfold counted.
  rewrite (filter_ext
             (fun n => negb (postfix_in names n) && is_postfix_of p n)
             (fun n => negb (postfix_in names' n) && is_postfix_of p n))
    by (intros n; now rewrite (postfix_in_Permutation names names' n H)).
  now apply filter_Permutation.
Qed.

(** X6: the order in which the store returns the names of a project
    changes neither the counts, nor which names are exceptions, nor
    which fragments are in the garbage list; only the order inside the
    regex depends on it. *)
Theorem classification_up_to_order (names names' : list string) :
  Permutation names names' ->
  (forall n, In n names -> has_dot n) ->
  exists pc exc garbage pc' exc' garbage',
    classify names = Ok (pc, exc) /\
    classify names' = Ok (pc', exc') /\
    garbage_of pc = Ok garbage /\
    garbage_of pc' = Ok garbage' /\
    (forall k, Dict.get k pc = Dict.get k pc') /\
    Permutation exc exc' /\
    Permutation garbage garbage'.
Proof.
  intros Hperm Hdots.
  assert (Hdots' : forall n, In n names' -> has_dot n).
  { intros n Hn. apply Hdots.
    now apply Permutation_in with names'; [apply Permutation_sym |]. }
  destruct (classify_full names Hdots)
    as (pc & Hrun & _ & Hnd & Hin & Hget).
  destruct (classify_full names' Hdots')
    as (pc' & Hrun' & _ & Hnd' & Hin' & Hget').
  assert (Hsame : forall k, Dict.get k pc = Dict.get k pc').
  { intros k.
    rewrite Hget, Hget', (postfix_in_Permutation names names' k Hperm).
    now rewrite (Permutation_length (counted_Permutation names names' k Hperm)). }
  exists pc, (filter (postfix_in names) names). eexists.
  exists pc', (filter (postfix_in names') names'). eexists.
  split; [exact Hrun | split; [exact Hrun' |]].
  split; [apply garbage_of_eq | split; [apply garbage_of_eq |]].
  split; [exact Hsame | split].
  - rewrite (filter_ext (postfix_in names) (postfix_in names'))
      by (intros n; now apply postfix_in_Permutation).
    now apply filter_Permutation.
  - apply Permutation_map.
    rewrite (filter_ext (too_many pc) (too_many pc'))
      by (intros k; unfold too_many; now rewrite Hsame).
    apply filter_Permutation.
    apply NoDup_Permutation; [exact Hnd | exact Hnd' |].
    intros k. rewrite <- !contains_keys, Hin, Hin'.
    now rewrite (postfix_in_Permutation names names' k Hperm).
Qed.

Lemma classification_up_to_order_witness :
  exists pc exc garbage pc' exc' garbage',
    classify ["a.com"; "b.a.com"; "c.org"] = Ok (pc, exc) /\
    classify ["c.org"; "b.a.com"; "a.com"] = Ok (pc', exc') /\
    garbage_of pc = Ok garbage /\
    garbage_of pc' = Ok garbage' /\
    (forall k, Dict.get k pc = Dict.get k pc') /\
    Permutation exc exc' /\
    Permutation garbage garbage'.
Proof.
  apply (classification_up_to_order
           ["a.com"; "b.a.com"; "c.org"] ["c.org"; "b.a.com"; "a.com"]).
  - apply Permutation_trans with ["b.a.com"; "a.com"; "c.org"].
    + apply perm_swap.
    + apply Permutation_trans with ["b.a.com"; "c.org"; "a.com"].
      * apply perm_skip, perm_swap.
      * apply perm_swap.
  - apply all_have_dots. vm_compute. reflexivity.
Defined.
